(** * The plotting package initialiser of hcipy

    [hcipy/plotting/__init__.py] has ten statements: five that build the
    export list [__all__] and five wildcard imports of sibling modules.
    This development embeds those statements over a small model of the
    Python objects they touch (module namespaces, list objects with
    identity) and proves the properties of the resulting namespace. *)

From Stdlib Require Import Ascii String.
From stdpp Require Import gmap strings list fin_maps.

Open Scope string_scope.
Open Scope list_scope.

(** ** Objects, namespaces and the store *)

(** An object is known by its identity, the way [id(x)] and [is] see it. *)
Abbreviation loc := positive.

(** A module namespace (its [__dict__]): names bound to objects. *)
Abbreviation namespace := (gmap string loc).

(** The store.  [heap] holds the list objects with their current items
    (the only lists the initialiser meets are lists of [str]); an identity
    that is not in the heap is an object of another type: a function, a
    class.  [modules] holds the module objects by qualified name.  The
    source of the five sibling modules is not part of this development: a
    sibling is present in [modules] as the module object that importing it
    yields, and absent when importing it raises.

    The model covers the bindings that the ten statements of the file
    make.  What the import system binds in the package by itself is left
    out: the dunder attributes of a new module, and the attribute named
    after a sibling that it sets when it loads that sibling.  The theorems
    therefore speak of [__all__], of the declared names, or of names other
    than those of the siblings. *)
Record store := Store {
  heap : gmap loc (list string);
  modules : gmap string namespace
}.

Inductive exn :=
  | NameError (name : string)
  | TypeError
  | AttributeError (module name : string)
  | ImportError (module : string)
  | KeyError (key : string).

#[global] Instance exn_eq_dec : EqDecision exn.
Proof. solve_decision. Defined.

Inductive result := Ok | Raise (e : exn).

#[global] Instance result_eq_dec : EqDecision result.
Proof. solve_decision. Defined.

Definition is_ok (r : result) : bool :=
  match r with Ok => true | Raise _ => false end.

(** The package whose [__init__.py] this is, and its siblings by relative
    name ([from .animation import *] names [hcipy.plotting.animation]). *)
Definition pkg : string := "hcipy.plotting".
Definition sub (rel : string) : string := pkg +:+ "." +:+ rel.

(** The globals of the package: the namespace its body runs in. *)
Definition globals (s : store) : namespace := default ∅ (modules s !! pkg).

Definition set_globals (ns : namespace) (s : store) : store :=
  Store (heap s) (<[pkg := ns]> (modules s)).

Definition set_heap (h : gmap loc (list string)) (s : store) : store :=
  Store h (modules s).

(** Identities in use: every list object and every object some namespace
    refers to.  A new object never takes the identity of a live one. *)
Definition bound_locs (ms : gmap string namespace) : list loc :=
  mbind (λ md : string * namespace, (map_to_list md.2).*2) (map_to_list ms).

Definition used (s : store) : gset loc :=
  dom (heap s) ∪ list_to_set (bound_locs (modules s)).

(** ** The statements of the file *)

Inductive stmt :=
  | AssignAll (xs : list string)    (* __all__ = [...]     *)
  | ExtendAll (xs : list string)    (* __all__ += [...]    *)
  | ImportStar (rel : string).      (* from .rel import *  *)

(** Lines 1 to 5 and 7 to 11 of [__init__.py]. *)
Definition body : list stmt :=
  [ AssignAll ["GifWriter"; "FFMpegWriter"];
    ExtendAll ["set_color_scheme"];
    ExtendAll ["plot_kde_density_1d"; "plot_kde_density_2d"; "plot_rug";
               "plot_density_scatter"];
    ExtendAll ["errorfill"];
    ExtendAll ["imshow_field"; "contour_field"; "contourf_field"];
    ImportStar "animation";
    ImportStar "color_scheme";
    ImportStar "density";
    ImportStar "error_bars";
    ImportStar "field" ].

(** ** Wildcard import *)

Definition leading_underscore (n : string) : bool :=
  match n with
  | String a _ => bool_decide (a = "_"%char)
  | EmptyString => false
  end.

(** The names [from m import *] goes through: the items of [m.__all__] when
    [m] has one (a [TypeError] when that is not a list), otherwise the keys
    of [m.__dict__] without those that start with an underscore.  In the
    second case the order of the keys plays no part: every key is defined,
    so the loop below cannot stop early. *)
Definition star_names (h : gmap loc (list string)) (d : namespace)
  : exn + list string :=
  match d !! "__all__" with
  | Some l =>
      match h !! l with
      | Some xs => inr xs
      | None => inl TypeError
      end
  | None => inr (filter (λ n, leading_underscore n = false) (map_to_list d).*1)
  end.

(** The loop of the wildcard import: each name is looked up in the source
    module and bound in the importing namespace; the first name the source
    does not define stops the loop with an [AttributeError], the earlier
    names staying bound. *)
Fixpoint bind_names (m : string) (d : namespace) (names : list string)
    (dst : namespace) : namespace * result :=
  match names with
  | [] => (dst, Ok)
  | n :: rest =>
      match d !! n with
      | Some o => bind_names m d rest (<[n := o]> dst)
      | None => (dst, Raise (AttributeError m n))
      end
  end.

(** ** Execution *)

Definition exec_stmt (st : stmt) (s : store) : store * result :=
  match st with
  | AssignAll xs =>
      let l := fresh (used s) in
      (set_globals (<["__all__" := l]> (globals s))
         (set_heap (<[l := xs]> (heap s)) s), Ok)
  | ExtendAll xs =>
      match globals s !! "__all__" with
      | None => (s, Raise (NameError "__all__"))
      | Some l =>
          match heap s !! l with
          | None => (s, Raise TypeError)
          | Some ys =>
              (set_globals (<["__all__" := l]> (globals s))
                 (set_heap (<[l := ys ++ xs]> (heap s)) s), Ok)
          end
      end
  | ImportStar rel =>
      match modules s !! sub rel with
      | None => (s, Raise (ImportError (sub rel)))
      | Some d =>
          match star_names (heap s) d with
          | inl e => (s, Raise e)
          | inr names =>
              let '(ns, r) := bind_names (sub rel) d names (globals s) in
              (set_globals ns s, r)
          end
      end
  end.

(** Statements run in order; an exception ends the run. *)
Fixpoint exec_body (b : list stmt) (s : store) : store * result :=
  match b with
  | [] => (s, Ok)
  | st :: rest =>
      match exec_stmt st s with
      | (s', Ok) => exec_body rest s'
      | (s', Raise e) => (s', Raise e)
      end
  end.

(** Running the module body. *)
Definition initialize (s : store) : store * result := exec_body body s.

(** [import hcipy.plotting]: a module already registered is returned as it
    is; otherwise a new module is registered, its body run, and on an
    exception the module is taken out again and the exception passed on. *)
Definition import_package (s : store) : store * result :=
  match modules s !! pkg with
  | Some _ => (s, Ok)
  | None =>
      match initialize (set_globals ∅ s) with
      | (s', Ok) => (s', Ok)
      | (s', Raise e) => (Store (heap s') (delete pkg (modules s')), Raise e)
      end
  end.

(** [importlib.reload]: the body runs again in the namespace of the
    registered module. *)
Definition reload_package (s : store) : store * result :=
  match modules s !! pkg with
  | Some _ => initialize s
  | None => (s, Raise (ImportError pkg))
  end.

(** Attribute access on the registered package: [hcipy.plotting.n]. *)
Definition resolve (s : store) (n : string) : exn + loc :=
  match modules s !! pkg with
  | None => inl (KeyError pkg)
  | Some ns =>
      match ns !! n with
      | Some o => inr o
      | None => inl (AttributeError pkg n)
      end
  end.

(** The items of the list [__all__] is bound to in the package. *)
Definition export_list (s : store) : option (list string) :=
  globals s !! "__all__" ≫= λ l, heap s !! l.

(** ** What a sibling supplies *)

(** The object a wildcard import of the module [d] binds to [n], if any. *)
Definition supplied (h : gmap loc (list string)) (d : namespace) (n : string)
  : option loc :=
  match star_names h d with
  | inr names => if bool_decide (n ∈ names) then d !! n else None
  | inl _ => None
  end.

Definition supplied_by (s : store) (rel n : string) : option loc :=
  modules s !! sub rel ≫= λ d, supplied (heap s) d n.

(** The wildcard import of a sibling goes through: the sibling could be
    imported, its [__all__] (if any) is a list, and it defines every name
    that list holds. *)
Definition star_ok (s : store) (rel : string) : bool :=
  match modules s !! sub rel with
  | Some d =>
      match star_names (heap s) d with
      | inr names => forallb (λ n, bool_decide (is_Some (d !! n))) names
      | inl _ => false
      end
  | None => false
  end.

(** Last wins: among siblings imported in the order [rels], the binding of
    [n] is the one of the last sibling that supplies [n]. *)
Fixpoint last_supplied (s : store) (rels : list string) (n : string)
  : option loc :=
  match rels with
  | [] => None
  | rel :: rest =>
      match last_supplied s rest n with
      | Some o => Some o
      | None => supplied_by s rel n
      end
  end.

(** The two halves of the file, and the siblings in import order. *)
Definition declarations : list stmt := take 5 body.
Definition wildcard_imports : list stmt := drop 5 body.
Definition collaborators : list string :=
  ["animation"; "color_scheme"; "density"; "error_bars"; "field"].

(** The declared grouping: line k of the file lists the names that the
    k-th imported sibling is to supply. *)
Definition groups : list (string * list string) :=
  [ ("animation", ["GifWriter"; "FFMpegWriter"]);
    ("color_scheme", ["set_color_scheme"]);
    ("density", ["plot_kde_density_1d"; "plot_kde_density_2d"; "plot_rug";
                 "plot_density_scatter"]);
    ("error_bars", ["errorfill"]);
    ("field", ["imshow_field"; "contour_field"; "contourf_field"]) ].

Definition group_stmts (gs : list (string * list string)) : list stmt :=
  match gs with
  | [] => []
  | g :: rest => AssignAll g.2 :: (ExtendAll <$> rest.*2)
  end.

Definition declared : list string := mjoin groups.*2.

(** The sibling that owns a declared name. *)
Definition owner (n : string) : option string :=
  (λ ig : nat * (string * list string), ig.2.1)
    <$> list_find (λ g : string * list string, n ∈ g.2) groups.

(** Two stores show the same siblings when the second keeps every object
    the first had in use and every module but the package itself. *)
Definition keeps (s s' : store) : Prop :=
  (∀ l, l ∈ used s → heap s' !! l = heap s !! l) ∧
  (∀ m, m ≠ pkg → modules s' !! m = modules s !! m).

(** What a sibling's namespace binds to [n], exported or not. *)
Definition defined_in (s : store) (rel n : string) : option loc :=
  modules s !! sub rel ≫= λ d : namespace, d !! n.

(** The siblings imported after [rel]. *)
Definition imported_after (rel : string) : list string :=
  match list_find (λ r, r = rel) collaborators with
  | Some (i, _) => drop (S i) collaborators
  | None => []
  end.

(** ** The exception of a failing import *)

(** The first of [names] that the module [d] does not define. *)
Definition first_missing (d : namespace) (names : list string)
  : option string :=
  head (filter (λ n, d !! n = None) names).

(** The exception the wildcard import of a sibling raises, if any. *)
Definition star_error (s : store) (rel : string) : option exn :=
  match modules s !! sub rel with
  | None => Some (ImportError (sub rel))
  | Some d =>
      match star_names (heap s) d with
      | inl e => Some e
      | inr names => AttributeError (sub rel) <$> first_missing d names
      end
  end.

(** The exception of the first sibling, in the order [rels], whose wildcard
    import raises. *)
Fixpoint first_error (s : store) (rels : list string) : option exn :=
  match rels with
  | [] => None
  | rel :: rest =>
      match star_error s rel with
      | Some e => Some e
      | None => first_error s rest
      end
  end.

Definition outcome (e : option exn) : result :=
  match e with
  | Some e => Raise e
  | None => Ok
  end.

(** ** A wildcard import of the package *)

(** [from hcipy.plotting import *] run in a namespace [dst]: the same loop
    as for a sibling, over the package and its [__all__]. *)
Definition import_star_from_package (s : store) (dst : namespace)
  : namespace * result :=
  match modules s !! pkg with
  | None => (dst, Raise (KeyError pkg))
  | Some ns =>
      match star_names (heap s) ns with
      | inl e => (dst, Raise e)
      | inr names => bind_names pkg ns names dst
      end
  end.

(** ** What a caller can do *)

Inductive action := Import | Reload.

Definition perform (a : action) (s : store) : store * result :=
  match a with
  | Import => import_package s
  | Reload => reload_package s
  end.

(** The stores a caller can be in, starting from [s0]. *)
Inductive reachable (s0 : store) : store → Prop :=
  | reachable_start : reachable s0 s0
  | reachable_step a s : reachable s0 s → reachable s0 (perform a s).1.

(** ** Example stores *)

Definition mk_modules (ms : list (string * list (string * loc)))
  : gmap string namespace :=
  list_to_map (prod_map sub list_to_map <$> ms).

Definition hcipy_store : store :=
  Store ∅ (mk_modules
    [ ("animation", [("GifWriter", 1); ("FFMpegWriter", 2); ("np", 20)]);
      ("color_scheme", [("set_color_scheme", 3); ("mpl", 21)]);
      ("density", [("plot_kde_density_1d", 4); ("plot_kde_density_2d", 5);
                   ("plot_rug", 6); ("plot_density_scatter", 7);
                   ("np", 20); ("_kde", 22)]);
      ("error_bars", [("errorfill", 8); ("np", 20)]);
      ("field", [("imshow_field", 9); ("contour_field", 10);
                 ("contourf_field", 11); ("np", 20)]) ])%positive.

(** Variations of a store: a sibling that lacks a name, binds one more, or
    has an [__all__] of its own. *)
Definition without (rel n : string) (s : store) : store :=
  Store (heap s) (alter (delete n) (sub rel) (modules s)).

Definition with_binding (rel n : string) (o : loc) (s : store) : store :=
  Store (heap s) (alter (<[n := o]>) (sub rel) (modules s)).

Definition with_all (rel : string) (l : loc) (names : list string) (s : store)
  : store :=
  Store (<[l := names]> (heap s))
    (alter (<["__all__" := l]>) (sub rel) (modules s)).

Definition no_rug_store : store := without "density" "plot_rug" hcipy_store.

Definition no_errorfill_store : store :=
  without "error_bars" "errorfill" hcipy_store.

Definition no_contour_store : store :=
  without "field" "contour_field" hcipy_store.

Definition shadow_store : store :=
  with_binding "field" "GifWriter" 30%positive hcipy_store.


Definition reexport_store : store :=
  with_all "field" 50%positive
    ["__all__"; "imshow_field"; "contour_field"; "contourf_field"] hcipy_store.

Definition all_in_all_store : store :=
  with_all "animation" 60%positive
    ["GifWriter"; "FFMpegWriter"; "__all__"] hcipy_store.

Definition broken_store : store :=
  with_all "error_bars" 70%positive ["errorfill"] no_errorfill_store.



(** ** Basic facts about the store *)

(** Closed facts about the example stores are settled by evaluation. *)
Ltac evaluate :=
  lazymatch goal with
  | |- _ = _ => vm_compute; reflexivity
  | |- _ => apply (bool_decide_unpack _); vm_compute; exact I
  end.

Lemma sub_ne_pkg rel : sub rel ≠ pkg.
Proof. unfold sub, pkg. simpl. discriminate. Qed.

Lemma globals_set_globals ns s : globals (set_globals ns s) = ns.
Proof. unfold globals, set_globals. simpl. by rewrite lookup_insert_eq. Qed.

Lemma globals_registered s ns : modules s !! pkg = Some ns → globals s = ns.
Proof. unfold globals. by intros ->. Qed.

Lemma used_heap s l : is_Some (heap s !! l) → l ∈ used s.
Proof. intros H. unfold used. apply elem_of_union_l. by apply elem_of_dom. Qed.

Lemma used_bound s m (d : namespace) n o :
  modules s !! m = Some d → d !! n = Some o → o ∈ used s.
Proof.
  intros Hm Hn. unfold used, bound_locs.
  apply elem_of_union_r, elem_of_list_to_set, list_elem_of_bind.
  exists (m, d). split.
  - simpl. apply list_elem_of_fmap. exists (n, o). split; [done|].
    by apply elem_of_map_to_list.
  - by apply elem_of_map_to_list.
Qed.

Lemma fresh_unused s : fresh (used s) ∉ used s.
Proof. apply is_fresh. Qed.

(** ** The wildcard import loop *)

Lemma bind_names_result m (d : namespace) names dst :
  is_ok (bind_names m d names dst).2
  = forallb (λ n, bool_decide (is_Some (d !! n))) names.
Proof.
  revert dst. induction names as [|n names IH]; intros dst; simpl; [done|].
  destruct (d !! n) as [o|] eqn:Hn.
  - by rewrite IH.
  - done.
Qed.

Lemma bind_names_lookup m (d : namespace) names dst ns :
  bind_names m d names dst = (ns, Ok) →
  ∀ n, ns !! n = if bool_decide (n ∈ names) then d !! n else dst !! n.
Proof.
  revert dst. induction names as [|x names IH]; intros dst; simpl.
  - by intros [= <-] n.
  - destruct (d !! x) as [o|] eqn:Hx; [|done].
    intros H n. rewrite (IH _ H n). clear IH H.
    destruct (decide (n = x)) as [->|Hne].
    + rewrite (bool_decide_eq_true_2 (x ∈ x :: names)) by (apply elem_of_cons; by left).
      case_bool_decide; [done|]. by rewrite lookup_insert_eq.
    + rewrite lookup_insert_ne by done.
      rewrite (bool_decide_ext (n ∈ x :: names) (n ∈ names)); [done|].
      rewrite elem_of_cons. split; [by intros [?|?]|by right].
Qed.

(** ** Siblings are only read *)

Lemma keeps_refl s : keeps s s.
Proof. by split. Qed.

Section keeps.
Context (s s' : store) (Hk : keeps s s').

Lemma star_names_keeps m d :
  modules s !! m = Some d →
  star_names (heap s') d = star_names (heap s) d.
Proof.
  intros Hm. unfold star_names.
  destruct (d !! "__all__") as [l|] eqn:Hl; [|done].
  rewrite (proj1 Hk); [done|]. by eapply used_bound.
Qed.

Lemma supplied_by_keeps rel n : supplied_by s' rel n = supplied_by s rel n.
Proof.
  unfold supplied_by. rewrite (proj2 Hk _ (sub_ne_pkg rel)).
  destruct (modules s !! sub rel) as [d|] eqn:Hd; [simpl|done].
  unfold supplied. by rewrite (star_names_keeps _ d Hd).
Qed.

Lemma star_ok_keeps rel : star_ok s' rel = star_ok s rel.
Proof.
  unfold star_ok. rewrite (proj2 Hk _ (sub_ne_pkg rel)).
  destruct (modules s !! sub rel) as [d|] eqn:Hd; [|done].
  by rewrite (star_names_keeps _ d Hd).
Qed.

Lemma last_supplied_keeps rels n :
  last_supplied s' rels n = last_supplied s rels n.
Proof.
  induction rels as [|rel rels IH]; simpl; [done|].
  by rewrite IH, supplied_by_keeps.
Qed.

Lemma forallb_star_ok_keeps rels :
  forallb (star_ok s') rels = forallb (star_ok s) rels.
Proof.
  induction rels as [|rel rels IH]; simpl; [done|].
  by rewrite IH, star_ok_keeps.
Qed.

End keeps.

(** ** One statement at a time *)

Lemma exec_assign_all xs s :
  exec_stmt (AssignAll xs) s
  = (Store (<[fresh (used s) := xs]> (heap s))
       (<[pkg := <["__all__" := fresh (used s)]> (globals s)]> (modules s)), Ok).
Proof. done. Qed.

Lemma exec_extend_all xs ys l h (ns : namespace) ms :
  ns !! "__all__" = Some l → h !! l = Some ys →
  exec_stmt (ExtendAll xs) (Store h (<[pkg := ns]> ms))
  = (Store (<[l := ys ++ xs]> h) (<[pkg := ns]> ms), Ok).
Proof.
  intros Hl Hh. unfold exec_stmt, globals, set_globals, set_heap. simpl.
  rewrite lookup_insert_eq. simpl. rewrite Hl, Hh.
  by rewrite insert_insert_eq, (insert_id ns).
Qed.

Lemma exec_import_star rel s s' r :
  exec_stmt (ImportStar rel) s = (s', r) →
  heap s' = heap s ∧
  (∀ m, m ≠ pkg → modules s' !! m = modules s !! m) ∧
  (is_Some (modules s !! pkg) → modules s' = <[pkg := globals s']> (modules s)) ∧
  is_ok r = star_ok s rel ∧
  (r = Ok → ∀ n,
     globals s' !! n = from_option Some (globals s !! n) (supplied_by s rel n)).
Proof.
  unfold exec_stmt, star_ok, supplied_by, supplied.
  assert (Hid : is_Some (modules s !! pkg) →
                modules s = <[pkg := globals s]> (modules s)).
  { intros [ns Hns]. unfold globals. rewrite Hns. simpl. by rewrite insert_id. }
  destruct (modules s !! sub rel) as [d|] eqn:Hd; simpl.
  2:{ intros [= <- <-]. by repeat split. }
  destruct (star_names (heap s) d) as [e|names] eqn:Hnames.
  { intros [= <- <-]. by repeat split. }
  destruct (bind_names (sub rel) d names (globals s)) as [ns r0] eqn:Hb.
  intros [= <- <-]. rewrite globals_set_globals. simpl.
  split; [done|]. split.
  { intros m Hm. by rewrite lookup_insert_ne. }
  split; [done|]. split.
  { by rewrite <- (bind_names_result (sub rel) d names (globals s)), Hb. }
  intros -> n. rewrite (bind_names_lookup _ _ _ _ _ Hb n).
  case_bool_decide as Hin; [|done].
  pose proof (bind_names_result (sub rel) d names (globals s)) as Hr.
  rewrite Hb in Hr. simpl in Hr. symmetry in Hr.
  rewrite forallb_forall in Hr.
  apply list_elem_of_In, Hr, bool_decide_eq_true in Hin as [o Ho].
  by rewrite Ho.
Qed.

(** ** The two halves of the body *)

Lemma body_halves : body = declarations ++ wildcard_imports.
Proof. reflexivity. Qed.

Lemma body_groups :
  body = group_stmts groups ++ (ImportStar <$> groups.*1).
Proof. reflexivity. Qed.

Lemma wildcard_imports_collaborators :
  wildcard_imports = ImportStar <$> collaborators.
Proof. reflexivity. Qed.

Lemma exec_body_cons st b s :
  exec_body (st :: b) s
  = match exec_stmt st s with
    | (s', Ok) => exec_body b s'
    | (s', Raise e) => (s', Raise e)
    end.
Proof. done. Qed.

Lemma exec_body_app b1 b2 s :
  exec_body (b1 ++ b2) s
  = match exec_body b1 s with
    | (s', Ok) => exec_body b2 s'
    | (s', Raise e) => (s', Raise e)
    end.
Proof.
  revert s. induction b1 as [|st b1 IH]; intros s; simpl; [done|].
  destruct (exec_stmt st s) as [s1 [|e]]; [apply IH|done].
Qed.

(** Lines 1 to 5 always succeed: they make one new list object, fill it
    with the eleven names and bind [__all__] to it. *)
Lemma exec_declarations s :
  exec_body declarations s
  = (Store (<[fresh (used s) := declared]> (heap s))
       (<[pkg := <["__all__" := fresh (used s)]> (globals s)]> (modules s)), Ok).
Proof.
  unfold declarations. simpl take.
  set (l := fresh (used s)).
  unfold exec_body. rewrite exec_assign_all. fold l.
  repeat (erewrite exec_extend_all;
          [|apply lookup_insert_eq|apply lookup_insert_eq];
          rewrite insert_insert_eq; simpl app).
  reflexivity.
Qed.

Lemma keeps_declarations s : keeps s (exec_body declarations s).1.
Proof.
  rewrite exec_declarations. split; simpl.
  - intros l Hl. rewrite lookup_insert_ne; [done|].
    intros <-. by apply (fresh_unused s).
  - intros m Hm. by rewrite lookup_insert_ne.
Qed.

(** Lines 7 to 11, for any list of siblings. *)
Lemma exec_imports rels s s' r :
  exec_body (ImportStar <$> rels) s = (s', r) →
  heap s' = heap s ∧
  (∀ m, m ≠ pkg → modules s' !! m = modules s !! m) ∧
  (is_Some (modules s !! pkg) → modules s' = <[pkg := globals s']> (modules s)) ∧
  is_ok r = forallb (star_ok s) rels ∧
  (r = Ok → ∀ n,
     globals s' !! n
     = from_option Some (globals s !! n) (last_supplied s rels n)).
Proof.
  revert s. induction rels as [|rel rels IH]; intros s.
  { intros [= <- <-]. do 2 (split; [done|]). split; [|done].
    intros [ns Hns]. unfold globals. rewrite Hns. simpl. by rewrite insert_id. }
  rewrite fmap_cons, exec_body_cons.
  destruct (exec_stmt (ImportStar rel) s) as [s1 r1] eqn:H1.
  apply exec_import_star in H1 as (Hh1 & Hm1 & Hp1 & Hr1 & Hg1).
  cbn [forallb last_supplied]. rewrite <- Hr1.
  destruct r1 as [|e]; simpl.
  2:{ intros [= <- <-]. by repeat split. }
  intros H2. apply IH in H2 as (Hh2 & Hm2 & Hp2 & Hr2 & Hg2).
  assert (Hk : keeps s s1).
  { split; [intros l _; by rewrite Hh1|done]. }
  split; [congruence|]. split.
  { intros m Hm. by rewrite Hm2, Hm1. }
  split.
  { intros Hs. rewrite Hp2, (Hp1 Hs); [by rewrite insert_insert_eq|].
    rewrite (Hp1 Hs), lookup_insert_eq. by eexists. }
  split.
  { by rewrite Hr2, (forallb_star_ok_keeps s s1 Hk). }
  intros -> n. rewrite (Hg2 eq_refl n), (Hg1 eq_refl n).
  rewrite (last_supplied_keeps s s1 Hk).
  by destruct (last_supplied s rels n).
Qed.

(** ** The whole body *)

(** Lines 1 to 5 followed by the wildcard imports of any siblings [rels]:
    the new list object holds the eleven names, the siblings are as they
    were, the run succeeds exactly when every wildcard import goes through,
    and then each name is bound to what the last supplying sibling gives. *)
Lemma exec_declarations_imports rels s :
  let l := fresh (used s) in
  let run := exec_body (declarations ++ (ImportStar <$> rels)) s in
  heap run.1 = <[l := declared]> (heap s) ∧
  (∀ m, m ≠ pkg → modules run.1 !! m = modules s !! m) ∧
  modules run.1 !! pkg = Some (globals run.1) ∧
  is_ok run.2 = forallb (star_ok s) rels ∧
  (run.2 = Ok → ∀ n,
     globals run.1 !! n
     = from_option Some (<["__all__" := l]> (globals s) !! n)
         (last_supplied s rels n)).
Proof.
  intros l run. subst run. rewrite exec_body_app, exec_declarations. fold l.
  pose proof (keeps_declarations s) as Hk. rewrite exec_declarations in Hk.
  fold l in Hk. simpl in Hk.
  set (s5 := Store _ _) in *.
  destruct (exec_body (ImportStar <$> rels) s5) as [s' r] eqn:He.
  apply exec_imports in He as (Hh & Hm & Hp & Hr & Hg). simpl.
  assert (Hreg : is_Some (modules s5 !! pkg)).
  { subst s5. simpl. rewrite lookup_insert_eq. by eexists. }
  split; [by rewrite Hh|]. split.
  { intros m Hm'. rewrite Hm by done. subst s5. simpl. by rewrite lookup_insert_ne. }
  split.
  { rewrite (Hp Hreg). by rewrite lookup_insert_eq. }
  split.
  { by rewrite Hr, (forallb_star_ok_keeps s s5 Hk). }
  intros Hok n. rewrite (Hg Hok n), (last_supplied_keeps s s5 Hk).
  subst s5. unfold globals at 1. simpl. by rewrite lookup_insert_eq.
Qed.

Lemma initialize_spec s :
  let l := fresh (used s) in
  let s' := (initialize s).1 in
  heap s' = <[l := declared]> (heap s) ∧
  (∀ m, m ≠ pkg → modules s' !! m = modules s !! m) ∧
  modules s' !! pkg = Some (globals s') ∧
  is_ok (initialize s).2 = forallb (star_ok s) collaborators ∧
  ((initialize s).2 = Ok → ∀ n,
     globals s' !! n
     = from_option Some (<["__all__" := l]> (globals s) !! n)
         (last_supplied s collaborators n)).
Proof. apply (exec_declarations_imports collaborators s). Qed.

Lemma initialize_keeps s : keeps s (initialize s).1.
Proof.
  destruct (initialize_spec s) as (Hh & Hm & _). split; [|done].
  intros l Hl. rewrite Hh, lookup_insert_ne; [done|].
  intros <-. by apply (fresh_unused s).
Qed.

Lemma resolve_initialize s n :
  resolve (initialize s).1 n
  = match globals (initialize s).1 !! n with
    | Some o => inr o
    | None => inl (AttributeError pkg n)
    end.
Proof.
  destruct (initialize_spec s) as (_ & _ & Hp & _).
  unfold resolve. by rewrite Hp.
Qed.

(** After a successful run a name that some sibling supplies resolves to
    the object of the last such sibling. *)
Lemma resolve_last_supplied s n o :
  (initialize s).2 = Ok → last_supplied s collaborators n = Some o →
  resolve (initialize s).1 n = inr o.
Proof.
  intros Hok Hn. destruct (initialize_spec s) as (_ & _ & _ & _ & Hg).
  by rewrite resolve_initialize, (Hg Hok n), Hn.
Qed.

Lemma last_supplied_app s rels1 rels2 n :
  last_supplied s (rels1 ++ rels2) n
  = match last_supplied s rels2 n with
    | Some o => Some o
    | None => last_supplied s rels1 n
    end.
Proof.
  induction rels1 as [|rel rels1 IH]; simpl.
  - by destruct (last_supplied s rels2 n).
  - rewrite IH. by destruct (last_supplied s rels2 n).
Qed.

Lemma last_supplied_none s rels n :
  Forall (λ rel, supplied_by s rel n = None) rels →
  last_supplied s rels n = None.
Proof.
  induction 1 as [|rel rels Hrel _ IH]; simpl; [done|]. by rewrite IH.
Qed.

(** ** Stores around an import *)

Lemma elem_of_used s l :
  l ∈ used s ↔
  is_Some (heap s !! l) ∨
  ∃ m (d : namespace) n, modules s !! m = Some d ∧ d !! n = Some l.
Proof.
  split.
  - unfold used, bound_locs. rewrite elem_of_union, elem_of_dom.
    intros [?|H]; [by left|right].
    apply elem_of_list_to_set, list_elem_of_bind in H as ([m d] & H1 & H2).
    simpl in H1. apply list_elem_of_fmap in H1 as ([n o] & -> & H1).
    exists m, d, n. split; by apply elem_of_map_to_list.
  - intros [?|(m & d & n & ? & ?)]; [by apply used_heap|by eapply used_bound].
Qed.

Lemma used_register_empty s :
  modules s !! pkg = None → used (set_globals ∅ s) = used s.
Proof.
  intros Hp. apply set_eq. intros l. rewrite !elem_of_used. simpl.
  split; (intros [?|(m & d & n & Hm & Hn)]; [by left|right]).
  - destruct (decide (m = pkg)) as [->|Hne].
    + rewrite lookup_insert_eq in Hm. by simplify_eq.
    + rewrite lookup_insert_ne in Hm by done. by exists m, d, n.
  - exists m, d, n. split; [|done]. rewrite lookup_insert_ne; [done|]. congruence.
Qed.

Lemma keeps_register_empty s :
  modules s !! pkg = None → keeps s (set_globals ∅ s).
Proof.
  intros Hp. split; [done|]. intros m Hm. simpl. by rewrite lookup_insert_ne.
Qed.

Lemma import_package_fresh s :
  modules s !! pkg = None →
  import_package s
  = match initialize (set_globals ∅ s) with
    | (s', Ok) => (s', Ok)
    | (s', Raise e) => (Store (heap s') (delete pkg (modules s')), Raise e)
    end.
Proof. intros Hp. unfold import_package. by rewrite Hp. Qed.



(** ** The export list *)

Lemma declared_names :
  declared
  = ["GifWriter"; "FFMpegWriter"; "set_color_scheme"; "plot_kde_density_1d";
     "plot_kde_density_2d"; "plot_rug"; "plot_density_scatter"; "errorfill";
     "imshow_field"; "contour_field"; "contourf_field"].
Proof. reflexivity. Qed.

Lemma export_list_declarations s :
  export_list (exec_body declarations s).1 = Some declared.
Proof.
  rewrite exec_declarations. unfold export_list, globals. simpl.
  rewrite lookup_insert_eq. simpl. rewrite lookup_insert_eq. simpl.
  by rewrite lookup_insert_eq.
Qed.

(** While no sibling supplies the name [__all__], the export list stays
    the list of lines 1 to 5 through any number of wildcard imports. *)
Lemma export_list_imports rels s :
  Forall (λ rel, supplied_by s rel "__all__" = None) rels →
  (exec_body (declarations ++ (ImportStar <$> rels)) s).2 = Ok →
  export_list (exec_body (declarations ++ (ImportStar <$> rels)) s).1
  = Some declared.
Proof.
  intros Hno Hok.
  destruct (exec_declarations_imports rels s) as (Hh & _ & _ & _ & Hg).
  unfold export_list.
  rewrite (Hg Hok), (last_supplied_none _ _ _ Hno), Hh.
  cbn [from_option]. rewrite lookup_insert_eq.
  cbn [mbind option_bind]. by rewrite lookup_insert_eq.
Qed.

(** C5: the list that lines 1 to 5 build, one assignment and four
    in-place extensions, holds no string twice. *)
Theorem export_table_unique s :
  ∃ xs, export_list (exec_body declarations s).1 = Some xs ∧ NoDup xs.
Proof.
  exists declared. split; [apply export_list_declarations|].
  evaluate.
Qed.

(** C1, counterexample: the field sibling has an [__all__] of its own that
    lists the name [__all__]; the package initialises, and its export list
    is then the sibling's list, not the eleven declared names. *)
Lemma export_list_rebound :
  (initialize reexport_store).2 = Ok ∧
  export_list (initialize reexport_store).1
  = Some ["__all__"; "imshow_field"; "contour_field"; "contourf_field"] ∧
  export_list (initialize reexport_store).1
  ≠ Some ["GifWriter"; "FFMpegWriter"; "set_color_scheme";
          "plot_kde_density_1d"; "plot_kde_density_2d"; "plot_rug";
          "plot_density_scatter"; "errorfill"; "imshow_field";
          "contour_field"; "contourf_field"].
Proof.
  repeat split; evaluate.
Qed.

(** C1, amended: after the package initialises, its export list holds
    exactly the eleven names, in the declared order and no others, provided
    no sibling's wildcard import supplies the name [__all__]. *)
Theorem export_list_initialized s :
  Forall (λ rel, supplied_by s rel "__all__" = None) collaborators →
  (initialize s).2 = Ok →
  export_list (initialize s).1
  = Some ["GifWriter"; "FFMpegWriter"; "set_color_scheme";
          "plot_kde_density_1d"; "plot_kde_density_2d"; "plot_rug";
          "plot_density_scatter"; "errorfill"; "imshow_field";
          "contour_field"; "contourf_field"].
Proof.
  intros Hno Hok. rewrite <- declared_names.
  by apply (export_list_imports collaborators s).
Qed.

Lemma export_list_initialized_witness :
  Forall (λ rel, supplied_by hcipy_store rel "__all__" = None) collaborators ∧
  (initialize hcipy_store).2 = Ok ∧
  export_list (initialize hcipy_store).1
  = Some ["GifWriter"; "FFMpegWriter"; "set_color_scheme";
          "plot_kde_density_1d"; "plot_kde_density_2d"; "plot_rug";
          "plot_density_scatter"; "errorfill"; "imshow_field";
          "contour_field"; "contourf_field"].
Proof.
  assert (H1 : Forall (λ rel, supplied_by hcipy_store rel "__all__" = None)
                 collaborators).
  { evaluate. }
  assert (H2 : (initialize hcipy_store).2 = Ok).
  { evaluate. }
  split; [exact H1|]. split; [exact H2|].
  exact (export_list_initialized hcipy_store H1 H2).
Defined.

(** C9, counterexample: the animation sibling lists [__all__] in its own
    [__all__]; the first wildcard import rebinds the package's [__all__],
    so the export list does depend on what a sibling defines. *)
Lemma export_list_depends_on_sibling :
  export_list (exec_body declarations all_in_all_store).1 = Some declared ∧
  (initialize all_in_all_store).2 = Ok ∧
  export_list (initialize all_in_all_store).1
  = Some ["GifWriter"; "FFMpegWriter"; "__all__"] ∧
  export_list (initialize all_in_all_store).1 ≠ Some declared.
Proof.
  split; [apply export_list_declarations|]. repeat split; evaluate.
Qed.

(** C9, amended: the export list is fully assigned by lines 1 to 5, before
    any wildcard import runs and whatever the store holds; and after each
    of the imports that follow it is still the same eleven strings,
    whatever names the siblings define or lack, as long as no sibling's
    wildcard import supplies the name [__all__]. *)
Theorem export_list_fixed_before_imports s :
  export_list (exec_body declarations s).1 = Some declared ∧
  ∀ k,
    Forall (λ rel, supplied_by s rel "__all__" = None) collaborators →
    (exec_body (declarations ++ take k wildcard_imports) s).2 = Ok →
    export_list (exec_body (declarations ++ take k wildcard_imports) s).1
    = Some declared.
Proof.
  split; [apply export_list_declarations|]. intros k Hno Hok.
  rewrite wildcard_imports_collaborators, <- fmap_take in *.
  apply export_list_imports; [|done].
  by apply Forall_take.
Qed.

Lemma export_list_fixed_before_imports_witness :
  Forall (λ rel, supplied_by no_rug_store rel "__all__" = None) collaborators ∧
  (exec_body (declarations ++ take 3 wildcard_imports) no_rug_store).2 = Ok ∧
  export_list
    (exec_body (declarations ++ take 3 wildcard_imports) no_rug_store).1
  = Some declared.
Proof.
  assert (H1 : Forall (λ rel, supplied_by no_rug_store rel "__all__" = None)
                 collaborators).
  { evaluate. }
  assert (H2 : (exec_body (declarations ++ take 3 wildcard_imports)
                  no_rug_store).2 = Ok).
  { evaluate. }
  split; [exact H1|]. split; [exact H2|].
  exact (proj2 (export_list_fixed_before_imports no_rug_store) 3 H1 H2).
Defined.

(** ** Failure at load time *)

Lemma import_package_failed_unregistered s e :
  modules s !! pkg = None → (import_package s).2 = Raise e →
  modules (import_package s).1 !! pkg = None.
Proof.
  intros Hp. rewrite (import_package_fresh s Hp).
  destruct (initialize (set_globals ∅ s)) as [s' [|e']]; [done|].
  intros _. simpl. apply lookup_delete_eq.
Qed.









(** ** Which object a name resolves to *)

Lemma groups_collaborators : groups.*1 = collaborators.
Proof. reflexivity. Qed.

Lemma collaborators_split rel :
  rel ∈ collaborators →
  collaborators = take (length collaborators - S (length (imported_after rel)))
                    collaborators ++ rel :: imported_after rel.
Proof.
  unfold imported_after. intros Hin.
  destruct (list_find (λ r, r = rel) collaborators) as [[i r]|] eqn:Hf.
  - apply list_find_Some in Hf as (Hi & -> & _).
    rewrite length_drop.
    replace (length collaborators - S (length collaborators - S i)) with i.
    + symmetry. by apply take_drop_middle.
    + apply lookup_lt_Some in Hi. lia.
  - apply list_find_None in Hf. rewrite Forall_forall in Hf.
    by destruct (Hf rel Hin).
Qed.


(** A sibling that supplies [n], with no later sibling supplying it too,
    is the one whose object the name gets. *)
Lemma last_supplied_unshadowed s rel n o :
  rel ∈ collaborators →
  supplied_by s rel n = Some o →
  Forall (λ rel', supplied_by s rel' n = None) (imported_after rel) →
  last_supplied s collaborators n = Some o.
Proof.
  intros Hin Hsup Hno.
  rewrite (collaborators_split rel Hin), last_supplied_app.
  cbn [last_supplied]. by rewrite (last_supplied_none _ _ _ Hno), Hsup.
Qed.

Lemma supplied_by_defined_in s rel n o :
  supplied_by s rel n = Some o → defined_in s rel n = Some o.
Proof.
  unfold supplied_by, defined_in, supplied.
  destruct (modules s !! sub rel) as [d|]; [simpl|done].
  destruct (star_names (heap s) d); [done|]. by case_bool_decide.
Qed.

Lemma defined_in_initialize s rel n :
  defined_in (initialize s).1 rel n = defined_in s rel n.
Proof.
  unfold defined_in. destruct (initialize_keeps s) as [_ Hm].
  by rewrite (Hm _ (sub_ne_pkg rel)).
Qed.

(** C3, counterexample: the field sibling also defines a [GifWriter] of
    its own, and the name resolves to that object, not to the one the
    animation sibling, its owner, defines; and when the density sibling
    does not define [plot_rug], the package still initialises and the name
    resolves to nothing. *)
Lemma resolved_symbol_not_owners :
  (owner "GifWriter" = Some "animation" ∧
   defined_in shadow_store "animation" "GifWriter" = Some 1%positive ∧
   (import_package shadow_store).2 = Ok ∧
   resolve (import_package shadow_store).1 "GifWriter" = inr 30%positive ∧
   resolve (import_package shadow_store).1 "GifWriter" ≠ inr 1%positive) ∧
  (owner "plot_rug" = Some "density" ∧
   (import_package no_rug_store).2 = Ok ∧
   resolve (import_package no_rug_store).1 "plot_rug"
   = inl (AttributeError pkg "plot_rug")).
Proof.
  repeat split; evaluate.
Qed.

(** C3, amended: after initialisation, each of the eleven declared names
    that the wildcard import of its owning sibling supplies, and that no
    sibling imported later supplies as well, resolves through the package
    to the very object the owning sibling binds it to: the same identity,
    not a copy.  For [imshow_field], owned by the sibling imported last,
    the first condition is enough. *)
Theorem resolved_symbol_is_owners s :
  (initialize s).2 = Ok →
  (∀ rel names n o,
     (rel, names) ∈ groups → n ∈ names →
     supplied_by s rel n = Some o →
     Forall (λ rel', supplied_by s rel' n = None) (imported_after rel) →
     resolve (initialize s).1 n = inr o ∧
     defined_in (initialize s).1 rel n = Some o) ∧
  (∀ o,
     supplied_by s "field" "imshow_field" = Some o →
     resolve (initialize s).1 "imshow_field" = inr o ∧
     defined_in (initialize s).1 "field" "imshow_field" = Some o).
Proof.
  intros Hok.
  assert (Hgen : ∀ rel n o,
    rel ∈ collaborators → supplied_by s rel n = Some o →
    Forall (λ rel', supplied_by s rel' n = None) (imported_after rel) →
    resolve (initialize s).1 n = inr o ∧
    defined_in (initialize s).1 rel n = Some o).
  { intros rel n o Hin Hsup Hno. split.
    - apply resolve_last_supplied; [done|].
      by apply (last_supplied_unshadowed s rel).
    - rewrite defined_in_initialize. by apply supplied_by_defined_in. }
  split.
  - intros rel names n o Hg _ Hsup Hno. apply Hgen; [|done..].
    rewrite <- groups_collaborators. apply list_elem_of_fmap.
    by exists (rel, names).
  - intros o Hsup. apply Hgen; [|done|by constructor].
    evaluate.
Qed.

Lemma resolved_symbol_is_owners_witness :
  (initialize hcipy_store).2 = Ok ∧
  (resolve (initialize hcipy_store).1 "plot_rug" = inr 6%positive ∧
   defined_in (initialize hcipy_store).1 "density" "plot_rug"
   = Some 6%positive) ∧
  (resolve (initialize hcipy_store).1 "imshow_field" = inr 9%positive ∧
   defined_in (initialize hcipy_store).1 "field" "imshow_field"
   = Some 9%positive).
Proof.
  assert (H : (initialize hcipy_store).2 = Ok) by evaluate.
  split; [exact H|]. split.
  - apply (proj1 (resolved_symbol_is_owners hcipy_store H) "density"
             ["plot_kde_density_1d"; "plot_kde_density_2d"; "plot_rug";
              "plot_density_scatter"] "plot_rug" 6%positive); evaluate.
  - apply (proj2 (resolved_symbol_is_owners hcipy_store H) 9%positive).
    evaluate.
Defined.



(** ** What initialisation leaves alone *)

Lemma perform_keeps a s : keeps s (perform a s).1.
Proof.
  destruct a; simpl.
  - unfold import_package.
    destruct (modules s !! pkg) as [ns|] eqn:Hp; [apply keeps_refl|].
    pose proof (initialize_keeps (set_globals ∅ s)) as [Hh Hm].
    rewrite (used_register_empty s Hp) in Hh.
    destruct (initialize (set_globals ∅ s)) as [s' [|e]]; simpl in *.
    + split; [done|]. intros m Hne. rewrite (Hm m Hne). by rewrite lookup_insert_ne.
    + split; [done|]. intros m Hne. cbn [modules].
      rewrite lookup_delete_ne, (Hm m Hne) by done. by rewrite lookup_insert_ne.
  - unfold reload_package.
    destruct (modules s !! pkg); [apply initialize_keeps|apply keeps_refl].
Qed.


(** ** Initialising again *)




(** ** The states a caller can reach *)

(** Along the moves of a caller the siblings supply what they supplied at
    the start, and the package is either not registered or holds the
    bindings of a body that ran to its end. *)
Lemma reachable_invariant s0 s :
  modules s0 !! pkg = None → reachable s0 s →
  (∀ rels, forallb (star_ok s) rels = forallb (star_ok s0) rels) ∧
  (∀ rels n, last_supplied s rels n = last_supplied s0 rels n) ∧
  (modules s !! pkg = None ∨
   forallb (star_ok s0) collaborators = true ∧
   ∃ ns : namespace, modules s !! pkg = Some ns ∧
     ∀ n, n ≠ "__all__" → ns !! n = last_supplied s0 collaborators n).
Proof.
  intros Hp0. induction 1 as [|a s Hreach (Hst & Hls & IH)].
  { split; [done|]. split; [done|]. by left. }
  pose proof (perform_keeps a s) as Hk.
  split. { intros rels. by rewrite (forallb_star_ok_keeps s _ Hk), Hst. }
  split. { intros rels n. by rewrite (last_supplied_keeps s _ Hk), Hls. }
  destruct a; cbn [perform].
  - unfold import_package.
    destruct (modules s !! pkg) as [ns|] eqn:Hp.
    { cbn [fst]. rewrite Hp. destruct IH as [?|?]; [done|by right]. }
    pose proof (keeps_register_empty s Hp) as Hk0.
    destruct (initialize_spec (set_globals ∅ s)) as (_ & _ & Hreg & Hr & Hg).
    rewrite (forallb_star_ok_keeps s _ Hk0), Hst in Hr.
    destruct (initialize (set_globals ∅ s)) as [s' [|e]];
      cbn [fst snd is_ok modules] in *.
    + right. split; [done|]. exists (globals s'). split; [done|].
      intros n Hn. rewrite (Hg eq_refl n).
      rewrite (last_supplied_keeps s _ Hk0), Hls.
      rewrite lookup_insert_ne, globals_set_globals, lookup_empty by done.
      by destruct (last_supplied s0 collaborators n).
    + left. apply lookup_delete_eq.
  - unfold reload_package.
    destruct (modules s !! pkg) as [ns|] eqn:Hp; [|by left].
    destruct IH as [Hnone|(Hall & ns' & Hns' & Hb)]; [congruence|].
    assert (ns' = ns) as -> by congruence.
    destruct (initialize_spec s) as (_ & _ & Hreg & Hr & Hg).
    rewrite Hst, Hall in Hr.
    destruct (initialize s) as [s' [|e]]; cbn [fst snd is_ok] in *; [|done].
    right. split; [done|]. exists (globals s'). split; [done|].
    intros n Hn. rewrite (Hg eq_refl n), Hls.
    rewrite lookup_insert_ne by done.
    rewrite (globals_registered s ns Hp), (Hb n Hn).
    by destruct (last_supplied s0 collaborators n).
Qed.

(** C8, counterexample: the field sibling defines no [contour_field]; a
    caller that imports the package reaches a state in which
    [imshow_field] resolves and [contour_field] does not: neither none nor
    all eleven. *)
Lemma caller_reaches_ten_of_eleven :
  modules no_contour_store !! pkg = None ∧
  reachable no_contour_store (perform Import no_contour_store).1 ∧
  resolve (perform Import no_contour_store).1 "imshow_field"
  = inr 9%positive ∧
  resolve (perform Import no_contour_store).1 "contour_field"
  = inl (AttributeError pkg "contour_field").
Proof.
  split; [evaluate|].
  split; [apply reachable_step, reachable_start|].
  split; evaluate.
Qed.

(** C8, amended: a caller never sees a partly run body.  In every state a
    caller reaches from one in which the package is not registered, by
    imports and reloads, either the package is not registered and nothing
    resolves through it, or its body ran to the end and each declared name
    resolves as the finished body binds it: to the object of the last
    sibling that supplies it, and not at all if none does.  So whenever
    each of the eleven declared names is supplied by some sibling, either
    no exported symbol is resolvable or all eleven are. *)
Theorem caller_never_sees_partial_state s0 s :
  modules s0 !! pkg = None →
  reachable s0 s →
  ((∀ n, resolve s n = inl (KeyError pkg)) ∨
   (∀ n, n ∈ declared →
      resolve s n = match last_supplied s0 collaborators n with
                    | Some o => inr o
                    | None => inl (AttributeError pkg n)
                    end)) ∧
  (Forall (λ n, is_Some (last_supplied s0 collaborators n)) declared →
   (∀ n, resolve s n = inl (KeyError pkg)) ∨
   Forall (λ n, ∃ o, resolve s n = inr o) declared).
Proof.
  intros Hp0 Hreach.
  destruct (reachable_invariant s0 s Hp0 Hreach) as (_ & _ & Hinv).
  assert (Hmain :
    (∀ n, resolve s n = inl (KeyError pkg)) ∨
    (∀ n, n ∈ declared →
       resolve s n = match last_supplied s0 collaborators n with
                     | Some o => inr o
                     | None => inl (AttributeError pkg n)
                     end)).
  { destruct Hinv as [Hnone|(_ & ns & Hns & Hb)].
    - left. intros n. unfold resolve. by rewrite Hnone.
    - right. intros n Hn. unfold resolve. rewrite Hns, (Hb n).
      + by destruct (last_supplied s0 collaborators n).
      + intros ->. revert Hn. evaluate. }
  split; [done|]. intros Hsup.
  destruct Hmain as [Hnone|Hsome]; [by left|right].
  rewrite Forall_forall in Hsup. apply Forall_forall. intros n Hn.
  destruct (Hsup n Hn) as [o Ho]. exists o.
  by rewrite (Hsome n Hn), Ho.
Qed.

Lemma caller_never_sees_partial_state_witness :
  modules hcipy_store !! pkg = None ∧
  reachable hcipy_store (perform Reload (perform Import hcipy_store).1).1 ∧
  Forall (λ n, is_Some (last_supplied hcipy_store collaborators n)) declared ∧
  ((∀ n, resolve (perform Reload (perform Import hcipy_store).1).1 n
         = inl (KeyError pkg)) ∨
   Forall (λ n, ∃ o, resolve (perform Reload (perform Import hcipy_store).1).1 n
                     = inr o) declared).
Proof.
  assert (H1 : modules hcipy_store !! pkg = None) by evaluate.
  assert (H2 : reachable hcipy_store
                 (perform Reload (perform Import hcipy_store).1).1).
  { apply reachable_step, reachable_step, reachable_start. }
  assert (H3 : Forall (λ n, is_Some (last_supplied hcipy_store collaborators n))
                 declared).
  { evaluate. }
  split; [exact H1|]. split; [exact H2|]. split; [exact H3|].
  exact (proj2 (caller_never_sees_partial_state hcipy_store _ H1 H2) H3).
Defined.

(** ** Siblings without an [__all__] of their own *)

Lemma star_names_no_all h (d : namespace) n :
  d !! "__all__" = None →
  ∃ names, star_names h d = inr names ∧
           (n ∈ names ↔ leading_underscore n = false ∧ is_Some (d !! n)).
Proof.
  intros Hall. unfold star_names. rewrite Hall. eexists. split; [done|].
  rewrite list_elem_of_filter, list_elem_of_fmap. split.
  - intros [Hu ([k o] & -> & Hin)]. split; [done|].
    apply elem_of_map_to_list in Hin. by exists o.
  - intros [Hu [o Ho]]. split; [done|]. exists (n, o). split; [done|].
    by apply elem_of_map_to_list.
Qed.

Lemma star_ok_no_all s rel :
  is_Some (modules s !! sub rel) → defined_in s rel "__all__" = None →
  star_ok s rel = true.
Proof.
  unfold defined_in, star_ok. intros [d ->]. simpl. intros Hall.
  unfold star_names. rewrite Hall.
  apply forallb_forall. intros n Hn. apply bool_decide_eq_true.
  apply list_elem_of_In, list_elem_of_filter in Hn as [_ Hn].
  apply list_elem_of_fmap in Hn as ([k o] & -> & Hin).
  apply elem_of_map_to_list in Hin. by exists o.
Qed.

Lemma supplied_by_no_all s rel n :
  defined_in s rel "__all__" = None →
  supplied_by s rel n
  = if leading_underscore n then None else defined_in s rel n.
Proof.
  unfold defined_in, supplied_by, supplied.
  destruct (modules s !! sub rel) as [d|]; simpl; [|by destruct leading_underscore].
  intros Hall.
  destruct (star_names_no_all (heap s) d n Hall) as (names & -> & Hin).
  case_bool_decide as Hn.
  - apply Hin in Hn as [-> _]. done.
  - destruct (leading_underscore n) eqn:Hu; [done|].
    destruct (d !! n) as [o|] eqn:Ho; [|done].
    destruct Hn. apply Hin. split; [done|]. by exists o.
Qed.

(** X3: the wildcard import of a sibling that could be imported and has no
    [__all__] of its own cannot raise, and it leaves every name of the
    package that starts with an underscore as it was: [__all__] among
    them. *)
Theorem wildcard_import_skips_private rel s :
  is_Some (modules s !! sub rel) →
  defined_in s rel "__all__" = None →
  (exec_stmt (ImportStar rel) s).2 = Ok ∧
  ∀ n, leading_underscore n = true →
       globals (exec_stmt (ImportStar rel) s).1 !! n = globals s !! n.
Proof.
  intros Hm Hall.
  destruct (exec_stmt (ImportStar rel) s) as [s' r] eqn:He.
  apply exec_import_star in He as (_ & _ & _ & Hr & Hg).
  rewrite (star_ok_no_all s rel Hm Hall) in Hr.
  destruct r as [|e]; [|done]. split; [done|].
  intros n Hn. cbn [fst]. rewrite (Hg eq_refl n).
  by rewrite (supplied_by_no_all s rel n Hall), Hn.
Qed.

Lemma wildcard_import_skips_private_witness :
  is_Some (modules hcipy_store !! sub "density") ∧
  defined_in hcipy_store "density" "__all__" = None ∧
  (exec_stmt (ImportStar "density") hcipy_store).2 = Ok ∧
  ∀ n, leading_underscore n = true →
       globals (exec_stmt (ImportStar "density") hcipy_store).1 !! n
       = globals hcipy_store !! n.
Proof.
  assert (H1 : is_Some (modules hcipy_store !! sub "density")) by evaluate.
  assert (H2 : defined_in hcipy_store "density" "__all__" = None) by evaluate.
  split; [exact H1|]. split; [exact H2|].
  exact (wildcard_import_skips_private "density" hcipy_store H1 H2).
Defined.

(** X1: when each of the five siblings can be imported and none has an
    [__all__] of its own, the body cannot fail, whatever names the siblings
    define or lack, and the export list is the eleven declared names. *)
Theorem initialize_without_sibling_all s :
  Forall (λ rel, is_Some (modules s !! sub rel) ∧
                 defined_in s rel "__all__" = None) collaborators →
  (initialize s).2 = Ok ∧ export_list (initialize s).1 = Some declared.
Proof.
  intros Hall. rewrite Forall_forall in Hall.
  assert (Hok : (initialize s).2 = Ok).
  { destruct (initialize_spec s) as (_ & _ & _ & Hr & _).
    assert (Hf : forallb (star_ok s) collaborators = true).
    { apply forallb_forall. intros rel Hin.
      apply list_elem_of_In, Hall in Hin as [Hm Hno]. by apply star_ok_no_all. }
    rewrite Hf in Hr. by destruct (initialize s).2. }
  split; [done|].
  apply (export_list_imports collaborators s); [|done].
  apply Forall_forall. intros rel Hin. apply Hall in Hin as [_ Hno].
  by rewrite (supplied_by_no_all s rel _ Hno).
Qed.

Lemma initialize_without_sibling_all_witness :
  Forall (λ rel, is_Some (modules no_rug_store !! sub rel) ∧
                 defined_in no_rug_store rel "__all__" = None) collaborators ∧
  (initialize no_rug_store).2 = Ok ∧
  export_list (initialize no_rug_store).1 = Some declared.
Proof.
  assert (H : Forall (λ rel, is_Some (modules no_rug_store !! sub rel) ∧
                defined_in no_rug_store rel "__all__" = None) collaborators)
    by evaluate.
  split; [exact H|]. exact (initialize_without_sibling_all no_rug_store H).
Defined.

(** X2: the package passes on more than its export list.  Any name without
    a leading underscore that a sibling with no [__all__] of its own
    defines, declared or not, resolves through the package to the
    sibling's object, unless a sibling imported later supplies the name
    too.  (The name is not that of a sibling module.) *)
Theorem public_name_reexported s rel n o :
  rel ∈ collaborators →
  n ∉ collaborators →
  defined_in s rel "__all__" = None →
  leading_underscore n = false →
  defined_in s rel n = Some o →
  Forall (λ r, supplied_by s r n = None) (imported_after rel) →
  (initialize s).2 = Ok →
  resolve (initialize s).1 n = inr o.
Proof.
  intros Hin _ Hall Hu Hn Hno Hok.
  apply resolve_last_supplied; [done|].
  apply (last_supplied_unshadowed s rel); [done| |done].
  by rewrite (supplied_by_no_all s rel n Hall), Hu.
Qed.

Lemma public_name_reexported_witness :
  "color_scheme" ∈ collaborators ∧
  ("mpl" ∉ collaborators) ∧
  ("mpl" ∉ declared) ∧
  defined_in hcipy_store "color_scheme" "__all__" = None ∧
  leading_underscore "mpl" = false ∧
  defined_in hcipy_store "color_scheme" "mpl" = Some 21%positive ∧
  Forall (λ r, supplied_by hcipy_store r "mpl" = None)
    (imported_after "color_scheme") ∧
  (initialize hcipy_store).2 = Ok ∧
  resolve (initialize hcipy_store).1 "mpl" = inr 21%positive.
Proof.
  assert (H1 : "color_scheme" ∈ collaborators) by evaluate.
  assert (H2 : "mpl" ∉ collaborators) by evaluate.
  assert (H3 : defined_in hcipy_store "color_scheme" "__all__" = None)
    by evaluate.
  assert (H4 : leading_underscore "mpl" = false) by evaluate.
  assert (H5 : defined_in hcipy_store "color_scheme" "mpl" = Some 21%positive)
    by evaluate.
  assert (H6 : Forall (λ r, supplied_by hcipy_store r "mpl" = None)
                 (imported_after "color_scheme")) by evaluate.
  assert (H7 : (initialize hcipy_store).2 = Ok) by evaluate.
  split; [exact H1|]. split; [exact H2|]. split; [evaluate|].
  do 5 (split; [assumption|]).
  exact (public_name_reexported hcipy_store "color_scheme" "mpl" 21%positive
           H1 H2 H3 H4 H5 H6 H7).
Defined.

(** ** Which exception a failing run raises *)

Lemma bind_names_outcome m (d : namespace) names dst :
  (bind_names m d names dst).2
  = outcome (AttributeError m <$> first_missing d names).
Proof.
  unfold first_missing. revert dst.
  induction names as [|n names IH]; intros dst; [done|].
  cbn [bind_names]. rewrite filter_cons.
  destruct (d !! n) as [o|] eqn:Hn.
  - rewrite decide_False by done. apply IH.
  - by rewrite decide_True by done.
Qed.

Lemma exec_import_star_outcome rel s :
  (exec_stmt (ImportStar rel) s).2 = outcome (star_error s rel).
Proof.
  unfold exec_stmt, star_error.
  destruct (modules s !! sub rel) as [d|]; [|done].
  destruct (star_names (heap s) d) as [e|names]; [done|].
  rewrite <- (bind_names_outcome (sub rel) d names (globals s)).
  by destruct (bind_names (sub rel) d names (globals s)).
Qed.

Lemma star_error_keeps s s' rel :
  keeps s s' → star_error s' rel = star_error s rel.
Proof.
  intros Hk. unfold star_error. rewrite (proj2 Hk _ (sub_ne_pkg rel)).
  destruct (modules s !! sub rel) as [d|] eqn:Hd; [|done].
  by rewrite (star_names_keeps s s' Hk _ d Hd).
Qed.

Lemma first_error_keeps s s' rels :
  keeps s s' → first_error s' rels = first_error s rels.
Proof.
  intros Hk. induction rels as [|rel rels IH]; simpl; [done|].
  by rewrite IH, (star_error_keeps s s').
Qed.

Lemma exec_imports_outcome rels s :
  (exec_body (ImportStar <$> rels) s).2 = outcome (first_error s rels).
Proof.
  revert s. induction rels as [|rel rels IH]; intros s; [done|].
  rewrite fmap_cons, exec_body_cons. cbn [first_error].
  pose proof (exec_import_star_outcome rel s) as Ho.
  destruct (exec_stmt (ImportStar rel) s) as [s1 r1] eqn:H1.
  apply exec_import_star in H1 as (Hh1 & Hm1 & _).
  assert (Hk : keeps s s1).
  { split; [intros l _; by rewrite Hh1|done]. }
  cbn [snd] in Ho. destruct (star_error s rel) as [e|]; simpl in Ho; subst r1.
  - done.
  - by rewrite IH, (first_error_keeps s s1).
Qed.

Lemma initialize_outcome s :
  (initialize s).2 = outcome (first_error s collaborators).
Proof.
  pose proof (keeps_declarations s) as Hk. rewrite exec_declarations in Hk.
  unfold initialize. rewrite body_halves, exec_body_app, exec_declarations.
  lazy beta iota. rewrite wildcard_imports_collaborators, exec_imports_outcome.
  by rewrite (first_error_keeps s _ _ Hk).
Qed.

Lemma import_package_outcome s :
  modules s !! pkg = None →
  (import_package s).2 = outcome (first_error s collaborators).
Proof.
  intros Hp. rewrite (import_package_fresh s Hp).
  pose proof (initialize_outcome (set_globals ∅ s)) as Ho.
  rewrite (first_error_keeps s _ _ (keeps_register_empty s Hp)) in Ho.
  rewrite <- Ho. by destruct (initialize (set_globals ∅ s)) as [s' [|e]].
Qed.




(** X5: a failed import does not heal by itself.  The first import of the
    package having raised, the package is not registered, and importing it
    again raises the same exception, the siblings being what they were. *)
Theorem failed_import_fails_again s e :
  modules s !! pkg = None →
  (import_package s).2 = Raise e →
  (import_package (import_package s).1).2 = Raise e ∧
  modules (import_package (import_package s).1).1 !! pkg = None.
Proof.
  intros Hp He.
  pose proof (import_package_failed_unregistered s e Hp He) as Hun.
  pose proof (perform_keeps Import s) as Hk. cbn [perform] in Hk.
  assert (He2 : (import_package (import_package s).1).2 = Raise e).
  { rewrite (import_package_outcome _ Hun), (first_error_keeps s _ _ Hk).
    by rewrite <- (import_package_outcome s Hp). }
  split; [done|]. by apply (import_package_failed_unregistered _ e).
Qed.

Lemma failed_import_fails_again_witness :
  modules broken_store !! pkg = None ∧
  (import_package broken_store).2
  = Raise (AttributeError "hcipy.plotting.error_bars" "errorfill") ∧
  (import_package (import_package broken_store).1).2
  = Raise (AttributeError "hcipy.plotting.error_bars" "errorfill") ∧
  modules (import_package (import_package broken_store).1).1 !! pkg = None.
Proof.
  assert (H1 : modules broken_store !! pkg = None) by evaluate.
  assert (H2 : (import_package broken_store).2
               = Raise (AttributeError "hcipy.plotting.error_bars" "errorfill"))
    by evaluate.
  split; [exact H1|]. split; [exact H2|].
  exact (failed_import_fails_again broken_store _ H1 H2).
Defined.

(** ** The order of the import lines *)

Lemma last_supplied_Some s rels n o :
  last_supplied s rels n = Some o →
  ∃ r, r ∈ rels ∧ supplied_by s r n = Some o.
Proof.
  induction rels as [|a rels IH]; simpl; [done|].
  destruct (last_supplied s rels n) as [o'|].
  - intros [= ->]. destruct (IH eq_refl) as (r & Hr & Hs).
    exists r. split; [apply elem_of_cons; by right|done].
  - intros Ha. exists a. split; [apply elem_of_cons; by left|done].
Qed.

Lemma last_supplied_None s rels n :
  last_supplied s rels n = None →
  ∀ r, r ∈ rels → supplied_by s r n = None.
Proof.
  induction rels as [|a rels IH]; simpl.
  - by intros _ r ?%not_elem_of_nil.
  - destruct (last_supplied s rels n) as [o'|]; [done|].
    intros Ha r [->|Hr]%elem_of_cons; [done|by apply IH].
Qed.

(** With at most one supplier of [n], the binding is that supplier's,
    wherever it stands in the order. *)
Lemma last_supplied_unique s rels n r o :
  (∀ r1 r2, r1 ∈ rels → r2 ∈ rels →
            is_Some (supplied_by s r1 n) → is_Some (supplied_by s r2 n) →
            r1 = r2) →
  r ∈ rels → supplied_by s r n = Some o →
  last_supplied s rels n = Some o.
Proof.
  intros Huniq Hr Hs.
  destruct (last_supplied s rels n) as [o'|] eqn:Hl.
  - apply last_supplied_Some in Hl as (r' & Hr' & Hs').
    assert (r' = r) as -> by (apply Huniq; by eauto).
    congruence.
  - pose proof (last_supplied_None s rels n Hl r Hr). congruence.
Qed.

Lemma forallb_Permutation {A} (f : A → bool) l l' :
  l ≡ₚ l' → forallb f l = forallb f l'.
Proof.
  induction 1 as [|x l l' _ IH|x y l|l l' l'' _ IH1 _ IH2]; simpl.
  - done.
  - by rewrite IH.
  - by destruct (f x), (f y).
  - congruence.
Qed.

(** X6: for a name that at most one sibling supplies, the order of the
    five import lines does not matter: run with the imports in any other
    order, the body succeeds if it did and binds the name to the same
    object.  (The name is not that of a sibling module.) *)
Theorem import_order_irrelevant s rels n :
  collaborators ≡ₚ rels →
  n ∉ collaborators →
  Forall (λ r1, Forall (λ r2, is_Some (supplied_by s r1 n) →
                              is_Some (supplied_by s r2 n) → r1 = r2)
                  collaborators) collaborators →
  (initialize s).2 = Ok →
  (exec_body (declarations ++ (ImportStar <$> rels)) s).2 = Ok ∧
  globals (exec_body (declarations ++ (ImportStar <$> rels)) s).1 !! n
  = globals (initialize s).1 !! n.
Proof.
  intros Hperm _ Huniq Hok.
  destruct (initialize_spec s) as (_ & _ & _ & Hr & Hg).
  destruct (exec_declarations_imports rels s) as (_ & _ & _ & Hr' & Hg').
  assert (Hok' : (exec_body (declarations ++ (ImportStar <$> rels)) s).2 = Ok).
  { rewrite <- (forallb_Permutation _ _ _ Hperm), <- Hr, Hok in Hr'.
    by destruct (exec_body _ s).2. }
  split; [done|]. rewrite (Hg' Hok' n), (Hg Hok n). f_equal.
  assert (Huniq' : ∀ r1 r2, r1 ∈ collaborators → r2 ∈ collaborators →
            is_Some (supplied_by s r1 n) → is_Some (supplied_by s r2 n) →
            r1 = r2).
  { intros r1 r2 H1 H2. rewrite Forall_forall in Huniq.
    specialize (Huniq r1 H1). rewrite Forall_forall in Huniq. by apply Huniq. }
  destruct (last_supplied s collaborators n) as [o|] eqn:Hl.
  - apply last_supplied_Some in Hl as (r & Hin & Hs).
    apply (last_supplied_unique s rels n r o); [|by rewrite <- Hperm|done].
    intros r1 r2 H1 H2. apply Huniq'; by rewrite Hperm.
  - destruct (last_supplied s rels n) as [o|] eqn:Hl'; [|done].
    apply last_supplied_Some in Hl' as (r & Hin & Hs).
    rewrite <- Hperm in Hin.
    pose proof (last_supplied_None s _ n Hl r Hin). congruence.
Qed.

Lemma import_order_irrelevant_witness :
  collaborators ≡ₚ reverse collaborators ∧
  ("plot_rug" ∉ collaborators) ∧
  Forall (λ r1, Forall (λ r2, is_Some (supplied_by hcipy_store r1 "plot_rug") →
                              is_Some (supplied_by hcipy_store r2 "plot_rug") →
                              r1 = r2)
                  collaborators) collaborators ∧
  (initialize hcipy_store).2 = Ok ∧
  (exec_body (declarations ++ (ImportStar <$> reverse collaborators))
     hcipy_store).2 = Ok ∧
  globals (exec_body (declarations ++ (ImportStar <$> reverse collaborators))
             hcipy_store).1 !! "plot_rug"
  = globals (initialize hcipy_store).1 !! "plot_rug".
Proof.
  assert (H1 : collaborators ≡ₚ reverse collaborators)
    by (symmetry; apply reverse_Permutation).
  assert (H2 : "plot_rug" ∉ collaborators) by evaluate.
  assert (H3 : Forall (λ r1, Forall (λ r2,
                  is_Some (supplied_by hcipy_store r1 "plot_rug") →
                  is_Some (supplied_by hcipy_store r2 "plot_rug") → r1 = r2)
                  collaborators) collaborators) by evaluate.
  assert (H4 : (initialize hcipy_store).2 = Ok) by evaluate.
  do 4 (split; [assumption|]).
  exact (import_order_irrelevant hcipy_store (reverse collaborators) "plot_rug"
           H1 H2 H3 H4).
Defined.

(** ** A wildcard import of the package *)

Lemma star_names_package s xs :
  is_Some (modules s !! pkg) → export_list s = Some xs →
  star_names (heap s) (globals s) = inr xs.
Proof.
  intros _. unfold export_list, star_names.
  destruct (globals s !! "__all__") as [l|]; [simpl|done].
  by intros ->.
Qed.

(** X7: the export list is what a wildcard import of the package goes by.
    When the export list is the declared one and each declared name is
    bound, [from hcipy.plotting import *] succeeds and binds the eleven
    declared names, each to the object the package binds it to, and
    nothing else: any other name of the package, such as one a sibling
    passed on beside its declared names, is not handed over, and what the
    importer had under other names stays. *)
Theorem package_wildcard_import_binds_declared s dst :
  export_list s = Some declared →
  Forall (λ n, is_Some (globals s !! n)) declared →
  is_Some (modules s !! pkg) →
  (import_star_from_package s dst).2 = Ok ∧
  ∀ n, (import_star_from_package s dst).1 !! n
       = if bool_decide (n ∈ declared) then globals s !! n else dst !! n.
Proof.
  intros Hall Hdef [ns Hns].
  pose proof (star_names_package s declared (mk_is_Some _ _ Hns) Hall) as Hnames.
  rewrite (globals_registered s ns Hns) in *.
  unfold import_star_from_package. rewrite Hns, Hnames.
  pose proof (bind_names_result pkg ns declared dst) as Hr.
  assert (Hf : forallb (λ n, bool_decide (is_Some (ns !! n))) declared = true).
  { apply forallb_forall. intros n Hn. apply bool_decide_eq_true.
    rewrite Forall_forall in Hdef. by apply Hdef, list_elem_of_In. }
  rewrite Hf in Hr.
  destruct (bind_names pkg ns declared dst) as [ns' r] eqn:Hb.
  cbn [fst snd] in *. destruct r; [|done]. split; [done|].
  apply (bind_names_lookup _ _ _ _ _ Hb).
Qed.

Lemma package_wildcard_import_binds_declared_witness :
  export_list (initialize hcipy_store).1 = Some declared ∧
  Forall (λ n, is_Some (globals (initialize hcipy_store).1 !! n)) declared ∧
  is_Some (modules (initialize hcipy_store).1 !! pkg) ∧
  (import_star_from_package (initialize hcipy_store).1 ∅).2 = Ok ∧
  ∀ n, (import_star_from_package (initialize hcipy_store).1 ∅).1 !! n
       = if bool_decide (n ∈ declared)
         then globals (initialize hcipy_store).1 !! n
         else (∅ : namespace) !! n.
Proof.
  assert (H1 : export_list (initialize hcipy_store).1 = Some declared)
    by evaluate.
  assert (H2 : Forall (λ n, is_Some (globals (initialize hcipy_store).1 !! n))
                 declared) by evaluate.
  assert (H3 : is_Some (modules (initialize hcipy_store).1 !! pkg)) by evaluate.
  do 3 (split; [assumption|]).
  exact (package_wildcard_import_binds_declared _ ∅ H1 H2 H3).
Defined.


